(** * louaischat: the question-answering endpoint of [main.py]

    A shallow embedding of the request path of [main.py]: the topic
    classifier [detect_topic], the brevity heuristic [is_simple_question],
    the prompt templates and the handler [about_me], followed by the
    properties the specification states about them. *)

From Stdlib Require Import List String Ascii NArith ZArith QArith Bool Lia.
Import ListNotations.

Local Open Scope N_scope.

(** ** Text

    A Python [str] is a sequence of Unicode code points.  Text that comes
    from a client is a [str]; the literals of [main.py] are written as Rocq
    strings and injected with [lit]. *)

Definition char := N.
Definition str := list char.

Definition lit (s : string) : str := map N_of_ascii (list_ascii_of_string s).

(** U+2019, the only code point above 127 in the literals of [main.py]. *)
Definition rsquo : char := 8217.

(** What CPython's Unicode database decides for code points above 127; it
    is not part of the repository, so it is a parameter.  The case mapping
    sees the whole text and the position (a capital sigma lower-cases by
    context) and may return several code points. *)
Record UnicodeData := {
  tolower_full : str -> nat -> char -> str;
  isspace_wide : char -> bool
}.

(** A table that leaves text above 127 alone, for concrete evaluations. *)
Definition plain_tables : UnicodeData :=
  {| tolower_full := fun _ _ c => [c]; isspace_wide := fun _ => false |}.

Definition is_ascii (c : char) : Prop := c < 128.

Definition ascii_lower (c : char) : char :=
  if (65 <=? c) && (c <=? 90) then c + 32 else c.

Definition ascii_isspace (c : char) : bool :=
  ((9 <=? c) && (c <=? 13)) || ((28 <=? c) && (c <=? 31)) || (c =? 32).

(** [needle in hay] for two [str]. *)
Fixpoint startswith (p s : str) : bool :=
  match p, s with
  | [], _ => true
  | _ :: _, [] => false
  | a :: p', b :: s' => (a =? b) && startswith p' s'
  end.

Fixpoint contains (needle hay : str) : bool :=
  startswith needle hay ||
  match hay with
  | [] => false
  | _ :: rest => contains needle rest
  end.

(** The same as a proposition: the needle stands somewhere in the text. *)
Definition occurs (needle hay : str) : Prop :=
  exists before after, hay = before ++ needle ++ after.

Section Text.

Variable U : UnicodeData.

(** [str.lower()]: every code point is mapped in turn and the results are
    concatenated. *)
Definition lower_ucs4 (s : str) (i : nat) (c : char) : str :=
  if c <? 128 then [ascii_lower c] else tolower_full U s i c.

Fixpoint do_lower (s : str) (i : nat) (rest : str) : str :=
  match rest with
  | [] => []
  | c :: rest' => lower_ucs4 s i c ++ do_lower s (S i) rest'
  end.

Definition lower (s : str) : str := do_lower s 0 s.

Definition isspace (c : char) : bool :=
  if c <? 128 then ascii_isspace c else isspace_wide U c.

(** [str.split()] with no separator: the maximal runs of code points that
    are not whitespace, in order.  [cur] holds the current run reversed. *)
Fixpoint split_from (cur : str) (s : str) : list str :=
  match s with
  | [] => match cur with [] => [] | _ :: _ => [rev cur] end
  | c :: rest =>
      if isspace c
      then match cur with
           | [] => split_from [] rest
           | _ :: _ => rev cur :: split_from [] rest
           end
      else split_from (c :: cur) rest
  end.

Definition split (s : str) : list str := split_from [] s.

(** [str.strip()] with no argument. *)
Fixpoint lstrip (s : str) : str :=
  match s with
  | [] => []
  | c :: rest => if isspace c then lstrip rest else s
  end.

Definition rstrip (s : str) : str := rev (lstrip (rev s)).

Definition strip (s : str) : str := rstrip (lstrip s).

(** The number of tokens of a text, counted without building them: a token
    starts at every code point that is not whitespace and follows
    whitespace or the start of the text. *)
Fixpoint token_starts (after_space : bool) (s : str) : nat :=
  match s with
  | [] => 0
  | c :: rest =>
      ((if after_space && negb (isspace c) then 1 else 0)
       + token_starts (isspace c) rest)%nat
  end.

Definition token_count (s : str) : nat := token_starts true s.

End Text.

(** ** Keyword mapping *)

(** [KEY_TOPICS]: a dict literal, iterated in insertion order. *)
Definition KEY_TOPICS : list (string * list str) :=
  [ ("skills"%string,
      map lit ["skill"; "tech"; "technology"; "stack"; "tools"; "programming";
               "languages"; "framework"]%string);
    ("projects"%string,
      map lit ["project"; "work"; "experience"; "build"; "portfolio"; "code";
               "app"]%string);
    ("personality"%string,
      map lit ["personality"; "soft skills"; "attitude"; "work style";
               "values"; "philosophy"]%string);
    ("goals"%string,
      map lit ["goal"; "dream"; "startup"; "vision"; "future"; "ambition";
               "career"]%string);
    ("languages"%string,
      map lit ["language"; "speak"; "fluent"; "communication";
               "multilingual"]%string);
    ("general"%string, []) ].

(** [any(word in msg for word in words)]. *)
Definition any_in (words : list str) (msg : str) : bool :=
  existsb (fun word => contains word msg) words.

(** The loop of [detect_topic] over [KEY_TOPICS.items()], with the
    [return "general"] that follows it. *)
Fixpoint first_topic (items : list (string * list str)) (msg : str) : string :=
  match items with
  | [] => "general"%string
  | (topic, keywords) :: rest =>
      if any_in keywords msg then topic else first_topic rest msg
  end.

Definition simple_keywords : list str :=
  map lit ["what"; "who"; "where"; "when"; "why"; "how"; "your name"; "skill";
           "language"; "hello"]%string.

Section Classifier.

Variable U : UnicodeData.

Definition detect_topic (message : str) : string :=
  let msg := lower U message in
  first_topic KEY_TOPICS msg.

Definition is_simple_question (message : str) : bool :=
  let msg := lower U message in
  (List.length (split U msg) <=? 10)%nat && any_in simple_keywords msg.

End Classifier.

(** The specification's reading of the table: the priority order of the
    topics that have keywords, and the keywords of a topic. *)
Definition priority : list string :=
  ["skills"; "projects"; "personality"; "goals"; "languages"]%string.

Fixpoint keywords_in (items : list (string * list str)) (topic : string) : list str :=
  match items with
  | [] => []
  | (t, kws) :: rest => if String.eqb t topic then kws else keywords_in rest topic
  end.

Definition keywords_of (topic : string) : list str := keywords_in KEY_TOPICS topic.

Definition mentions (topic : string) (text : str) : Prop :=
  exists kw, In kw (keywords_of topic) /\ occurs kw text.

(** ** The handler *)

(** [Question]: the request body. *)
Record Question := { message : str }.

Record HTTPException := { status_code : Z; detail : string }.

(** A JSON object with text values: the dicts the endpoints return. *)
Definition JSON := list (string * str).

Record ChatMessage := { role : string; content : str }.

(** The arguments of [openai.chat.completions.create]. *)
Record CompletionRequest := {
  model : string;
  messages : list ChatMessage;
  temperature : Q;
  max_tokens : Z
}.

(** What one call of the provider does: it returns a response, of which
    the handler reads the [message.content] of each choice (which may be
    [None]), or it raises an [Exception] whose text is [e]. *)
Inductive ProviderOutcome :=
| Returned (choices : list (option str))
| Raised (e : str).

(** The effects of the handler: the lines given to [logger.error] and the
    requests submitted to the provider, oldest first. *)
Record World := { logged : list str; submitted : list CompletionRequest }.

Definition LOUAI_BASE_CONTEXT : str := lit "
You are Louai's personal assistant, answering as Louai himself.
Always speak clearly, professionally, and concisely.

Louai is a programming student based in Canada. He has hands-on experience with full-stack development, mainly using Python, FastAPI, PostgreSQL, React, and MongoDB.
He has built several real-world projects, including:
- An AI-powered job matching platform
- A digital library system with Stripe integration
- A fitness coaching app

Louai understands API development, authentication with JWT and OAuth, microservices using Docker/Kubernetes, and AI integration using OpenAI and NLP.

He communicates efficiently and focuses on facts, logic, and clarity.
Avoid filler language, exaggeration, jokes, or informal tone.
".

(** [length_instruction] of [about_me]. *)
Definition length_instruction_for (simple : bool) : str :=
  if simple
  then lit "Keep it short and direct (1-2 sentences)."
  else lit "Provide a professional and concise answer.".

(** The [if topic == ... elif ... else] of [about_me]: six f-strings over
    [length_instruction] and [q.message]. *)
Definition prompt_for (topic : string) (length_instruction message : str) : str :=
  if String.eqb topic "skills" then
    lit "
The question is about Louai's technical skills.
" ++ length_instruction ++ lit "

Mention FastAPI, React, Python, JWT, Docker, CI/CD, and backend architecture.

Question: " ++ message ++ lit "
"
  else if String.eqb topic "projects" then
    lit "
The question is about Louai's project experience.
" ++ length_instruction ++ lit "

Refer to:
- AI job-matching platform
- Digital library (Stripe)
- Fitness app project

Keep it factual and structured.

Question: " ++ message ++ lit "
"
  else if String.eqb topic "personality" then
    lit "
The question is about Louai" ++ [rsquo] ++ lit "s personal traits or mindset.
" ++ length_instruction ++ lit "

Mention his disciplined work ethic, logical thinking, and focus on intentional development.

Question: " ++ message ++ lit "
"
  else if String.eqb topic "goals" then
    lit "
The question is about Louai's future goals.
" ++ length_instruction ++ lit "

State his plan to launch a remote-first startup, grow as a backend engineer, and build software with purpose.

Question: " ++ message ++ lit "
"
  else if String.eqb topic "languages" then
    lit "
The question is about Louai" ++ [rsquo] ++ lit "s language or communication skills.
" ++ length_instruction ++ lit "

Mention he's fluent in English, French, and Spanish, and communicates effectively across teams.

Question: " ++ message ++ lit "
"
  else
    lit "
The question is:
" ++ message ++ lit "

" ++ length_instruction ++ lit "

Provide a direct, informative, and professional answer as Louai.
".

Definition chat_request (prompt : str) : CompletionRequest :=
  {| model := "gpt-4";
     messages := [ {| role := "system"; content := LOUAI_BASE_CONTEXT |};
                   {| role := "user"; content := prompt |} ];
     temperature := 5 # 10;
     max_tokens := 300 |}.

Definition bad_request : HTTPException :=
  {| status_code := 400; detail := "Message cannot be empty." |}.

Definition internal_error : HTTPException :=
  {| status_code := 500;
     detail := "Something went wrong while processing your request." |}.

Section Handler.

Variable U : UnicodeData.

(** The body of the [try]: the call, then
    [response.choices[0].message.content.strip()].  An empty choice list
    and a [None] content raise inside the [try] as well. *)
Definition completion_text (outcome : ProviderOutcome) : str + str :=
  match outcome with
  | Raised e => inl e
  | Returned [] => inl (lit "list index out of range")
  | Returned (None :: _) => inl (lit "'NoneType' object has no attribute 'strip'")
  | Returned (Some text :: _) => inr (strip U text)
  end.

(** The prompt [about_me] builds for a message. *)
Definition built_prompt (message : str) : str :=
  let topic := detect_topic U message in
  let simple := is_simple_question U message in
  prompt_for topic (length_instruction_for simple) message.

(** [about_me], under its decorators.  [create] is the provider as this
    call meets it. *)
Definition about_me (create : CompletionRequest -> ProviderOutcome)
    (w : World) (q : Question) : (HTTPException + JSON) * World :=
  match strip U (message q) with
  | [] => (inl bad_request, w)
  | _ :: _ =>
      let prompt := built_prompt (message q) in
      let request := chat_request prompt in
      let w1 := {| logged := logged w; submitted := submitted w ++ [request] |} in
      match completion_text (create request) with
      | inr text => (inr [("response"%string, text)], w1)
      | inl e =>
          (inl internal_error,
           {| logged := logged w1 ++ [lit "OpenAI API call failed: " ++ e];
              submitted := submitted w1 |})
      end
  end.

End Handler.

(** ** The application *)

Record Response := { status : Z; body : JSON }.

(** [ping]. *)
Definition ping (_ : unit) : JSON := [("message"%string, lit "pong")].

Inductive Request :=
| GET_ping
| POST_about_louai (remote_address : str) (q : Question).

(** What the framework makes of a handler's result: a returned dict is a
    200, an [HTTPException] its status with the detail as body. *)
Definition respond (r : HTTPException + JSON) : Response :=
  match r with
  | inr json => {| status := 200; body := json |}
  | inl e => {| status := status_code e; body := [("detail"%string, lit (detail e))] |}
  end.

Section Application.

Variable U : UnicodeData.

(** slowapi's limiter is a library: its state, its decision for one hit of
    a limit by a key, and the body of its 429 are parameters. *)
Variable Limiter : Type.
Variable limiter_hit : string -> str -> Limiter -> bool * Limiter.
Variable rate_limit_exceeded : JSON.

Record App := { limiter : Limiter; world : World }.

(** The two routes.  [about_me] is wrapped by [limiter.limit("5/minute")]
    with the remote address as key; [ping] is not wrapped. *)
Definition serve (create : CompletionRequest -> ProviderOutcome)
    (app : App) (r : Request) : Response * App :=
  match r with
  | GET_ping => (respond (inr (ping tt)), app)
  | POST_about_louai remote_address q =>
      let (admitted, l) := limiter_hit "5/minute" remote_address (limiter app) in
      if admitted
      then let (result, w) := about_me U create (world app) q in
           (respond result, {| limiter := l; world := w |})
      else ({| status := 429; body := rate_limit_exceeded |},
            {| limiter := l; world := world app |})
  end.

End Application.

(** The message of the specification's example. *)
Definition what_languages : str := lit "What languages do you speak?".

Definition empty_world : World := {| logged := []; submitted := [] |}.

(** The prompt of the latest request a world has seen submitted. *)
Definition last_prompt (w : World) : option str :=
  match rev (submitted w) with
  | [] => None
  | request :: _ =>
      match messages request with
      | [_; user] => Some (content user)
      | _ => None
      end
  end.

(** ** Case variants *)







(** A blank message, and a limiter that counts the hits of a client and
    admits five. *)
Definition blank_question : Question := {| message := [32; 9; 10] |}.

Definition counting_limiter (_ : string) (_ : str) (hits : nat) : bool * nat :=
  (Nat.ltb hits 5, S hits).

(** ** Start-up *)

(** A route of the application: an [APIRoute], which is what [app.get] and
    [app.post] register, or a route of another class.  Either carries the
    set of methods it answers, kept here as a list without repeats. *)
Inductive Route :=
| APIRoute (path : string) (methods : list string)
| OtherRoute (path : string) (methods : list string).

(** [set.add] and [set.update] on such a set. *)
Definition set_add (x : string) (s : list string) : list string :=
  if existsb (String.eqb x) s then s else s ++ [x].

Definition set_update (s items : list string) : list string :=
  fold_left (fun acc x => set_add x acc) items s.

(** [ensure_options_allowed], over [app.routes]. *)
Definition ensure_options_allowed (routes : list Route) : list Route :=
  map (fun route =>
         match route with
         | APIRoute path methods => APIRoute path (set_update methods ["OPTIONS"%string])
         | OtherRoute _ _ => route
         end) routes.

Definition route_methods (route : Route) : list string :=
  match route with
  | APIRoute _ methods => methods
  | OtherRoute _ methods => methods
  end.

Definition route_path (route : Route) : string :=
  match route with
  | APIRoute path _ => path
  | OtherRoute path _ => path
  end.

(** ** Requests in sequence *)

Section Run.

Variable U : UnicodeData.
Variable Limiter : Type.
Variable limiter_hit : string -> str -> Limiter -> bool * Limiter.
Variable rate_limit_exceeded : JSON.

(** Requests served one after another, each with the provider as that
    request meets it. *)
Fixpoint run (app : App Limiter)
    (requests : list ((CompletionRequest -> ProviderOutcome) * Request))
    : list Response * App Limiter :=
  match requests with
  | [] => ([], app)
  | (create, r) :: rest =>
      let (response, app1) := serve U Limiter limiter_hit rate_limit_exceeded create app r in
      let (responses, app2) := run app1 rest in
      (response :: responses, app2)
  end.

End Run.

(** Whether an answered request went to the provider: a question answered
    with 200 or 500. *)
Definition reached_provider (r : Request) (response : Response) : bool :=
  match r with
  | GET_ping => false
  | POST_about_louai _ _ => ((status response =? 200) || (status response =? 500))%Z
  end.

Definition failed (response : Response) : bool := (status response =? 500)%Z.

(** The keywords of personality that contain no keyword of an earlier
    topic. *)
Definition personality_own_keywords : list str :=
  map lit ["personality"; "attitude"; "values"; "philosophy"]%string.

(** The six labels [detect_topic] can return. *)
Definition topics : list string := priority ++ ["general"%string].

(** * Properties *)

(** ** Substrings *)

Lemma startswith_spec (p s : str) :
  startswith p s = true <-> exists rest, s = p ++ rest.
Proof.
  revert s; induction p as [|a p IH]; intros s; simpl.
  - split; [intros _; now exists s | reflexivity].
  - destruct s as [|b s].
    + split; [discriminate | intros [rest H]; discriminate].
    + rewrite andb_true_iff, N.eqb_eq, IH. split.
      * intros [-> [rest ->]]. now exists rest.
      * intros [rest H]. injection H as -> ->. split; [reflexivity | now exists rest].
Qed.

Lemma contains_occurs (needle hay : str) :
  contains needle hay = true <-> occurs needle hay.
Proof.
  unfold occurs. induction hay as [|c hay IH]; simpl.
  - rewrite orb_false_r, startswith_spec. split.
    + intros [rest H]. now exists [], rest.
    + intros [before [after H]]. destruct before; [now exists after | discriminate].
  - rewrite orb_true_iff, startswith_spec, IH. split.
    + intros [[rest H] | [before [after H]]].
      * now exists [], rest.
      * exists (c :: before), after. now rewrite H.
    + intros [[|b before] [after H]].
      * left. now exists after.
      * right. injection H as -> H. now exists before, after.
Qed.

Lemma any_in_spec (words : list str) (msg : str) :
  any_in words msg = true <-> exists kw, In kw words /\ occurs kw msg.
Proof.
  unfold any_in. rewrite existsb_exists.
  split; intros [kw [Hin H]]; exists kw; split; auto; now apply contains_occurs.
Qed.

Lemma occurs_middle (before needle after : str) :
  occurs needle (before ++ needle ++ after).
Proof. now exists before, after. Qed.

Lemma occurs_app_r (needle before hay : str) :
  occurs needle hay -> occurs needle (before ++ hay).
Proof.
  intros [b [a ->]]. exists (before ++ b), a. now rewrite <- app_assoc.
Qed.

(** ** Whitespace and case *)

Section TextFacts.

Variable U : UnicodeData.

Lemma split_from_length (s cur : str) :
  List.length (split_from U cur s) =
  match cur with
  | [] => token_starts U true s
  | _ :: _ => S (token_starts U false s)
  end.
Proof.
  revert cur; induction s as [|c s IH]; intros cur; simpl.
  - now destruct cur.
  - destruct (isspace U c); simpl.
    + destruct cur; simpl; rewrite IH; simpl; now rewrite ?andb_false_r.
    + rewrite IH. destruct cur; reflexivity.
Qed.

Lemma split_length (s : str) : List.length (split U s) = token_count U s.
Proof. apply (split_from_length s []). Qed.

Lemma lstrip_nil (s : str) :
  lstrip U s = [] <-> Forall (fun c => isspace U c = true) s.
Proof.
  induction s as [|c s IH]; simpl.
  - split; auto.
  - destruct (isspace U c) eqn:E.
    + rewrite IH. split; [now constructor | now inversion 1].
    + split; [discriminate | inversion 1; congruence].
Qed.

Lemma lstrip_suffix (s : str) : exists before, s = before ++ lstrip U s.
Proof.
  induction s as [|c s [before IH]]; simpl.
  - now exists [].
  - destruct (isspace U c).
    + exists (c :: before). simpl. now f_equal.
    + now exists [].
Qed.

Lemma lstrip_head (s : str) (c : char) (rest : str) :
  lstrip U s = c :: rest -> isspace U c = false.
Proof.
  induction s as [|d s IH]; simpl; [discriminate|].
  destruct (isspace U d) eqn:E; [exact IH | congruence].
Qed.

Lemma rstrip_nil (s : str) :
  rstrip U s = [] <-> Forall (fun c => isspace U c = true) s.
Proof.
  unfold rstrip. split.
  - intros H. apply (f_equal (@rev char)) in H. rewrite rev_involutive in H.
    simpl in H. apply lstrip_nil in H. rewrite <- (rev_involutive s).
    now apply Forall_rev.
  - intros H. apply Forall_rev in H. apply lstrip_nil in H. now rewrite H.
Qed.

(** A message is rejected exactly when it is empty or all whitespace. *)
Lemma strip_nil (s : str) :
  strip U s = [] <-> Forall (fun c => isspace U c = true) s.
Proof.
  unfold strip. rewrite rstrip_nil. split.
  - intros H. destruct (lstrip U s) as [|c rest] eqn:E.
    + now apply lstrip_nil.
    + apply lstrip_head in E. inversion H; congruence.
  - intros H. apply lstrip_nil in H. rewrite H. constructor.
Qed.



Lemma do_lower_ascii (s : str) (i : nat) (rest : str) :
  Forall is_ascii rest -> do_lower U s i rest = map ascii_lower rest.
Proof.
  revert i; induction rest as [|c rest IH]; intros i H; simpl; [reflexivity|].
  inversion H as [|? ? Hc Hrest]; subst. unfold lower_ucs4.
  apply N.ltb_lt in Hc. rewrite Hc. simpl. f_equal. now apply IH.
Qed.

(** On ASCII text [lower] is the familiar map, whatever the table says. *)
Lemma lower_ascii (s : str) : Forall is_ascii s -> lower U s = map ascii_lower s.
Proof. apply do_lower_ascii. Qed.


End TextFacts.

(** On ASCII messages the classifier does not look at the table. *)
Lemma detect_topic_ascii_tables (U1 U2 : UnicodeData) (m : str) :
  Forall is_ascii m -> detect_topic U1 m = detect_topic U2 m.
Proof.
  intros H. unfold detect_topic. cbv zeta.
  now rewrite (lower_ascii U1 m H), (lower_ascii U2 m H).
Qed.

(** ** The topic classifier *)

Lemma mentions_any_in (topic : string) (text : str) :
  mentions topic text <-> any_in (keywords_of topic) text = true.
Proof. unfold mentions. symmetry. apply any_in_spec. Qed.

Lemma not_mentions_any_in (topic : string) (text : str) :
  ~ mentions topic text -> any_in (keywords_of topic) text = false.
Proof.
  intros H. destruct (any_in (keywords_of topic) text) eqn:E; [|reflexivity].
  now apply mentions_any_in in E.
Qed.

(** The loop of [detect_topic], unrolled over the six entries. *)
Lemma detect_topic_unfold (U : UnicodeData) (m : str) :
  detect_topic U m =
  if any_in (keywords_of "skills") (lower U m) then "skills"%string
  else if any_in (keywords_of "projects") (lower U m) then "projects"%string
  else if any_in (keywords_of "personality") (lower U m) then "personality"%string
  else if any_in (keywords_of "goals") (lower U m) then "goals"%string
  else if any_in (keywords_of "languages") (lower U m) then "languages"%string
  else "general"%string.
Proof. reflexivity. Qed.

(** The topic without keywords never matches. *)
Lemma general_never_mentioned (text : str) : ~ mentions "general" text.
Proof. intros [kw [[] _]]. Qed.

(** C1. [detect_topic] tests skills, projects, personality, goals and
    languages in this order against the lower-cased message: a topic one of
    whose keywords occurs there, while no keyword of an earlier topic does,
    is the result; when no keyword of any of the five occurs the result is
    general. *)
Theorem detect_topic_first_match (U : UnicodeData) (m : str) :
  (forall earlier A later,
      priority = earlier ++ A :: later ->
      mentions A (lower U m) ->
      (forall B, In B earlier -> ~ mentions B (lower U m)) ->
      detect_topic U m = A)
  /\ ((forall A, In A priority -> ~ mentions A (lower U m)) ->
      detect_topic U m = "general"%string).
Proof.
  rewrite detect_topic_unfold. split.
  - intros earlier A later Hp HA Hearlier.
    apply mentions_any_in in HA.
    assert (Hno : forall B, In B earlier -> any_in (keywords_of B) (lower U m) = false)
      by (intros B HB; apply not_mentions_any_in; auto).
    clear Hearlier. unfold priority in Hp.
    repeat (destruct earlier as [|? earlier];
            [ injection Hp as <- _; rewrite ?Hno by (simpl; tauto); now rewrite HA
            | injection Hp as <- Hp;
              try (exfalso; destruct earlier; discriminate Hp) ]).
  - intros Hnone.
    rewrite !not_mentions_any_in by (apply Hnone; simpl; tauto).
    reflexivity.
Qed.

(** C1, at a message that mentions a goals keyword and a projects keyword. *)
Lemma detect_topic_first_match_witness :
  detect_topic plain_tables (lit "My DREAM app") = "projects"%string.
Proof.
  apply (proj1 (detect_topic_first_match plain_tables (lit "My DREAM app"))
           ["skills"%string] "projects"%string
           ["personality"; "goals"; "languages"]%string).
  - reflexivity.
  - apply mentions_any_in. vm_compute. reflexivity.
  - intros B [<- | []] H. apply mentions_any_in in H. vm_compute in H. discriminate H.
Defined.

(** C2, as the code has it: the example message contains the skills
    keyword [languages], and skills is tested before languages; it is a
    simple question of five tokens. *)
Theorem what_languages_classified (U : UnicodeData) :
  detect_topic U what_languages = "skills"%string
  /\ is_simple_question U what_languages = true
  /\ token_count U (lower U what_languages) = 5%nat.
Proof. vm_compute. repeat split. Qed.

(** C2 as stated fails: the topic of the example message is not languages. *)
Lemma what_languages_not_languages :
  (forall U, detect_topic U what_languages = "skills"%string)
  /\ "skills"%string <> "languages"%string.
Proof. split; [intros U; vm_compute; reflexivity | discriminate]. Qed.

(** ** The brevity heuristic *)

(** C3. [is_simple_question] is true exactly when the lower-cased message
    has at most ten whitespace-separated tokens and one of the fixed
    keywords occurs in it; with more than ten tokens it is false. *)
Theorem is_simple_question_spec (U : UnicodeData) (m : str) :
  (is_simple_question U m = true <->
     (token_count U (lower U m) <= 10)%nat
     /\ exists kw, In kw simple_keywords /\ occurs kw (lower U m))
  /\ ((10 < token_count U (lower U m))%nat -> is_simple_question U m = false).
Proof.
  unfold is_simple_question. cbv zeta. rewrite split_length. split.
  - now rewrite andb_true_iff, Nat.leb_le, any_in_spec.
  - intros H. apply Nat.leb_gt in H. now rewrite H.
Qed.

(** C3, at a question of eleven tokens that contains [what]. *)
Lemma is_simple_question_spec_witness :
  is_simple_question plain_tables
    (lit "what a b c d e f g h i j") = false.
Proof.
  apply (proj2 (is_simple_question_spec plain_tables (lit "what a b c d e f g h i j"))).
  vm_compute. reflexivity.
Defined.

(** ** Case *)







(** ** The handler *)

Section HandlerFacts.

Variable U : UnicodeData.
Variable create : CompletionRequest -> ProviderOutcome.

Lemma last_prompt_snoc (w : World) (prompt : str) (lines : list str) :
  last_prompt {| logged := lines; submitted := submitted w ++ [chat_request prompt] |}
  = Some prompt.
Proof. unfold last_prompt. simpl. now rewrite rev_unit. Qed.

(** A message that passes the check is submitted once, with the prompt
    built from it, whatever the provider then does. *)
Lemma about_me_submits (w : World) (q : Question) :
  strip U (message q) <> [] ->
  submitted (snd (about_me U create w q))
  = submitted w ++ [chat_request (built_prompt U (message q))].
Proof.
  intros H. unfold about_me.
  destruct (strip U (message q)); [congruence|].
  now destruct (completion_text U _).
Qed.

Lemma about_me_last_prompt (w : World) (q : Question) :
  strip U (message q) <> [] ->
  last_prompt (snd (about_me U create w q)) = Some (built_prompt U (message q)).
Proof.
  intros H. unfold last_prompt. rewrite (about_me_submits w q H).
  now rewrite rev_unit.
Qed.

Lemma about_me_blank (w : World) (q : Question) :
  strip U (message q) = [] -> about_me U create w q = (inl bad_request, w).
Proof. intros H. unfold about_me. now rewrite H. Qed.

End HandlerFacts.

Lemma occurs_prompt_for (topic : string) (length_instruction message : str) :
  occurs message (prompt_for topic length_instruction message).
Proof.
  unfold prompt_for.
  repeat match goal with
         | |- context [if ?b then _ else _] => destruct b
         end;
    repeat first [ exact (occurs_middle [] message _) | apply occurs_app_r ].
Qed.

(** The body of the handler on its own: a message that is empty or all
    whitespace raises the 400 and nothing else happens; hence a run that
    submits a prompt had a message with text left after stripping. *)
Theorem about_me_rejects_blank (U : UnicodeData)
    (create : CompletionRequest -> ProviderOutcome) (w : World) (q : Question) :
  (Forall (fun c => isspace U c = true) (message q) ->
   about_me U create w q
   = (inl {| status_code := 400; detail := "Message cannot be empty." |}, w))
  /\ (submitted (snd (about_me U create w q)) <> submitted w ->
      strip U (message q) <> []).
Proof.
  split.
  - intros H. apply about_me_blank. now apply strip_nil.
  - intros H E. apply H. now rewrite (about_me_blank U create w q E).
Qed.

(** The same at a message of a space, a tab and a newline. *)
Lemma about_me_rejects_blank_witness :
  about_me plain_tables (fun _ => Returned [Some (lit "hi")]) empty_world
    {| message := [32; 9; 10] |}
  = (inl {| status_code := 400; detail := "Message cannot be empty." |}, empty_world).
Proof.
  apply (proj1 (about_me_rejects_blank plain_tables
                  (fun _ => Returned [Some (lit "hi")]) empty_world
                  {| message := [32; 9; 10] |})).
  repeat constructor.
Defined.

(** C4, as the code has it.  The limiter wraps the handler and decides
    first.  A message that is empty or all whitespace is answered with the
    400 when the limiter admits the hit and with the 429 when it refuses
    it; either way no request is submitted and nothing is logged.  Hence a
    request after which a prompt was submitted had a message with text left
    after stripping. *)
Theorem endpoint_rejects_blank (U : UnicodeData) (Limiter : Type)
    (limiter_hit : string -> str -> Limiter -> bool * Limiter)
    (rate_limit_exceeded : JSON)
    (create : CompletionRequest -> ProviderOutcome) (app : App Limiter)
    (remote_address : str) (q : Question) :
  (Forall (fun c => isspace U c = true) (message q) ->
   fst (serve U Limiter limiter_hit rate_limit_exceeded create app
          (POST_about_louai remote_address q))
   = (if fst (limiter_hit "5/minute"%string remote_address (limiter Limiter app))
      then {| status := 400;
              body := [("detail"%string, lit "Message cannot be empty.")] |}
      else {| status := 429; body := rate_limit_exceeded |})
   /\ world Limiter (snd (serve U Limiter limiter_hit rate_limit_exceeded create app
                            (POST_about_louai remote_address q)))
      = world Limiter app)
  /\ (submitted (world Limiter
                   (snd (serve U Limiter limiter_hit rate_limit_exceeded create app
                           (POST_about_louai remote_address q))))
      <> submitted (world Limiter app) ->
      strip U (message q) <> []).
Proof.
  assert (Hblank : strip U (message q) = [] ->
    fst (serve U Limiter limiter_hit rate_limit_exceeded create app
           (POST_about_louai remote_address q))
    = (if fst (limiter_hit "5/minute"%string remote_address (limiter Limiter app))
       then {| status := 400;
               body := [("detail"%string, lit "Message cannot be empty.")] |}
       else {| status := 429; body := rate_limit_exceeded |})
    /\ world Limiter (snd (serve U Limiter limiter_hit rate_limit_exceeded create app
                             (POST_about_louai remote_address q)))
       = world Limiter app).
  { intros H. unfold serve.
    destruct (limiter_hit _ _ _) as [[|] l]; simpl.
    - rewrite (about_me_blank U create _ q H). now split.
    - now split. }
  split.
  - intros H. apply Hblank. now apply strip_nil.
  - intros H E. apply H. now rewrite (proj2 (Hblank E)).
Qed.

(** C4, as the code has it, at the first hit of a client. *)
Lemma endpoint_rejects_blank_witness :
  fst (serve plain_tables nat counting_limiter []
         (fun _ => Returned [Some (lit "hi")])
         {| limiter := 0%nat; world := empty_world |}
         (POST_about_louai (lit "127.0.0.1") blank_question))
  = {| status := 400; body := [("detail"%string, lit "Message cannot be empty.")] |}
  /\ world nat
       (snd (serve plain_tables nat counting_limiter []
               (fun _ => Returned [Some (lit "hi")])
               {| limiter := 0%nat; world := empty_world |}
               (POST_about_louai (lit "127.0.0.1") blank_question)))
     = empty_world.
Proof.
  apply (proj1 (endpoint_rejects_blank plain_tables nat counting_limiter []
                  (fun _ => Returned [Some (lit "hi")])
                  {| limiter := 0%nat; world := empty_world |}
                  (lit "127.0.0.1") blank_question)).
  repeat constructor.
Defined.

(** C4 as stated fails: the blank message of a client that has used its
    five hits is answered with the 429, not with the 400. *)
Lemma blank_message_refused_gets_429 :
  status (fst (serve plain_tables nat counting_limiter []
                 (fun _ => Returned [Some (lit "hi")])
                 {| limiter := 5%nat; world := empty_world |}
                 (POST_about_louai (lit "127.0.0.1") blank_question)))
  = 429%Z.
Proof. reflexivity. Qed.

(** C5. When the call of the provider fails with error text [e], also
    when the failure is a response without a usable first choice, the
    handler raises the 500 with the fixed detail: the response is the same
    for every [e], and [e] goes to the log only. *)
Theorem about_me_provider_failure (U : UnicodeData)
    (create : CompletionRequest -> ProviderOutcome) (w : World) (q : Question)
    (e : str) :
  strip U (message q) <> [] ->
  completion_text U (create (chat_request (built_prompt U (message q)))) = inl e ->
  fst (about_me U create w q)
  = inl {| status_code := 500;
           detail := "Something went wrong while processing your request." |}
  /\ respond (fst (about_me U create w q))
     = {| status := 500;
          body := [("detail"%string,
                    lit "Something went wrong while processing your request.")] |}
  /\ logged (snd (about_me U create w q))
     = logged w ++ [lit "OpenAI API call failed: " ++ e].
Proof.
  intros Hmsg Hfail. unfold about_me.
  destruct (strip U (message q)); [congruence|].
  rewrite Hfail. repeat split.
Qed.

(** C5, at a provider that raises. *)
Lemma about_me_provider_failure_witness :
  respond (fst (about_me plain_tables (fun _ => Raised (lit "401 invalid api key"))
                  empty_world {| message := lit "hello" |}))
  = {| status := 500;
       body := [("detail"%string,
                 lit "Something went wrong while processing your request.")] |}.
Proof.
  apply (about_me_provider_failure plain_tables
           (fun _ => Raised (lit "401 invalid api key")) empty_world
           {| message := lit "hello" |} (lit "401 invalid api key")).
  - vm_compute. discriminate.
  - reflexivity.
Defined.

(** C7. The prompt a run submits is a function of the topic, the brevity
    flag and the message alone: two runs that agree on the three submit the
    same prompt, the template of [prompt_for], whatever their provider and
    whatever was logged and submitted before them. *)
Theorem prompt_deterministic (U : UnicodeData)
    (create1 create2 : CompletionRequest -> ProviderOutcome)
    (w1 w2 : World) (q1 q2 : Question) :
  detect_topic U (message q1) = detect_topic U (message q2) ->
  is_simple_question U (message q1) = is_simple_question U (message q2) ->
  message q1 = message q2 ->
  strip U (message q1) <> [] ->
  last_prompt (snd (about_me U create1 w1 q1))
  = last_prompt (snd (about_me U create2 w2 q2))
  /\ last_prompt (snd (about_me U create1 w1 q1))
     = Some (prompt_for (detect_topic U (message q1))
               (length_instruction_for (is_simple_question U (message q1)))
               (message q1)).
Proof.
  intros Htopic Hsimple Hmessage Hmsg.
  assert (Hmsg2 : strip U (message q2) <> []) by now rewrite <- Hmessage.
  rewrite !about_me_last_prompt by assumption.
  unfold built_prompt. now rewrite Htopic, Hsimple, Hmessage.
Qed.

(** C7, at one question asked of a provider that answers into an empty
    world and of one that fails into a world with history. *)
Lemma prompt_deterministic_witness :
  last_prompt (snd (about_me plain_tables (fun _ => Returned [Some (lit "Python.")])
                      empty_world {| message := lit "Which stack?" |}))
  = last_prompt (snd (about_me plain_tables (fun _ => Raised (lit "timeout"))
                        {| logged := [lit "earlier"];
                           submitted := [chat_request (lit "earlier")] |}
                        {| message := lit "Which stack?" |})).
Proof.
  apply (prompt_deterministic plain_tables
           (fun _ => Returned [Some (lit "Python.")])
           (fun _ => Raised (lit "timeout"))
           empty_world
           {| logged := [lit "earlier"]; submitted := [chat_request (lit "earlier")] |}
           {| message := lit "Which stack?" |} {| message := lit "Which stack?" |});
    try reflexivity.
  vm_compute. discriminate.
Defined.

(** C10. The prompt submitted for an accepted message contains the message
    as the client sent it: the check strips a copy, the template takes the
    original, leading and trailing whitespace included. *)
Theorem prompt_contains_message (U : UnicodeData)
    (create : CompletionRequest -> ProviderOutcome) (w : World) (q : Question) :
  strip U (message q) <> [] ->
  exists prompt,
    last_prompt (snd (about_me U create w q)) = Some prompt
    /\ occurs (message q) prompt.
Proof.
  intros H. exists (built_prompt U (message q)). split.
  - now apply about_me_last_prompt.
  - apply occurs_prompt_for.
Qed.

(** C10, at a message with whitespace on both sides. *)
Lemma prompt_contains_message_witness :
  exists prompt,
    last_prompt (snd (about_me plain_tables (fun _ => Returned [Some (lit "Hi.")])
                        empty_world {| message := lit "  hello there " |}))
    = Some prompt
    /\ occurs (lit "  hello there ") prompt.
Proof.
  apply (prompt_contains_message plain_tables (fun _ => Returned [Some (lit "Hi.")])
           empty_world {| message := lit "  hello there " |}).
  vm_compute. discriminate.
Defined.

(** ** The application *)

Section ApplicationFacts.

Variable U : UnicodeData.
Variable Limiter : Type.
Variable limiter_hit : string -> str -> Limiter -> bool * Limiter.
Variable rate_limit_exceeded : JSON.
Variable create : CompletionRequest -> ProviderOutcome.

(** A hit the limiter refuses is answered with the 429 before [about_me]
    runs: nothing is submitted and nothing is logged. *)
Lemma serve_refused (app : App Limiter) (remote_address : str) (q : Question)
    (l : Limiter) :
  limiter_hit "5/minute" remote_address (limiter Limiter app) = (false, l) ->
  serve U Limiter limiter_hit rate_limit_exceeded create app
    (POST_about_louai remote_address q)
  = ({| status := 429; body := rate_limit_exceeded |},
     {| limiter := l; world := world Limiter app |}).
Proof. intros H. unfold serve. now rewrite H. Qed.

(** A hit the limiter admits runs [about_me]. *)
Lemma serve_admitted (app : App Limiter) (remote_address : str) (q : Question)
    (l : Limiter) :
  limiter_hit "5/minute" remote_address (limiter Limiter app) = (true, l) ->
  serve U Limiter limiter_hit rate_limit_exceeded create app
    (POST_about_louai remote_address q)
  = (respond (fst (about_me U create (world Limiter app) q)),
     {| limiter := l; world := snd (about_me U create (world Limiter app) q) |}).
Proof.
  intros H. unfold serve. rewrite H.
  now destruct (about_me U create (world Limiter app) q).
Qed.

(** A blank message never reaches the provider or the log, admitted or
    refused; admitted, its answer is the 400. *)
Lemma serve_blank (app : App Limiter) (remote_address : str) (q : Question) :
  strip U (message q) = [] ->
  world Limiter (snd (serve U Limiter limiter_hit rate_limit_exceeded create app
                        (POST_about_louai remote_address q)))
  = world Limiter app
  /\ (fst (limiter_hit "5/minute" remote_address (limiter Limiter app)) = true ->
      status (fst (serve U Limiter limiter_hit rate_limit_exceeded create app
                     (POST_about_louai remote_address q))) = 400%Z).
Proof.
  intros H. unfold serve.
  destruct (limiter_hit _ _ _) as [[|] l]; simpl.
  - rewrite (about_me_blank U create _ q H). now split.
  - split; [reflexivity | discriminate].
Qed.

End ApplicationFacts.

(** C9. [GET /ping] is answered with status 200 and the body
    [{"message": "pong"}] in every state of the application, and leaves
    that state as it was: the limiter is not consulted, the provider is
    not called and nothing is logged. *)
Theorem ping_always_pong (U : UnicodeData) (Limiter : Type)
    (limiter_hit : string -> str -> Limiter -> bool * Limiter)
    (rate_limit_exceeded : JSON)
    (create : CompletionRequest -> ProviderOutcome) (app : App Limiter) :
  serve U Limiter limiter_hit rate_limit_exceeded create app GET_ping
  = ({| status := 200; body := [("message"%string, lit "pong")] |}, app).
Proof. reflexivity. Qed.

(** * Further properties of the code *)

(** ** The classifier *)

Lemma occurs_trans (a b c : str) : occurs a b -> occurs b c -> occurs a c.
Proof.
  intros [b1 [b2 ->]] [c1 [c2 ->]]. exists (c1 ++ b1), (b2 ++ c2).
  now rewrite <- !app_assoc.
Qed.

Lemma any_in_intro (words : list str) (kw msg : str) :
  In kw words -> occurs kw msg -> any_in words msg = true.
Proof. intros Hin H. apply any_in_spec. now exists kw. Qed.

Lemma any_in_false_not_mentions (topic : string) (text : str) :
  any_in (keywords_of topic) text = false -> ~ mentions topic text.
Proof. intros E H. apply mentions_any_in in H. congruence. Qed.

Lemma detect_topic_range (U : UnicodeData) (m : str) : In (detect_topic U m) topics.
Proof.
  rewrite detect_topic_unfold.
  repeat match goal with
         | |- context [if ?b then _ else _] => destruct b
         end; simpl; tauto.
Qed.

(** X1. A topic other than general is returned only with cause: one of its
    keywords occurs in the lower-cased message, and no keyword of a topic
    listed before it does. *)
Theorem detect_topic_sound (U : UnicodeData) (m : str) (A : string) :
  detect_topic U m = A ->
  A <> "general"%string ->
  exists earlier later,
    priority = earlier ++ A :: later
    /\ mentions A (lower U m)
    /\ forall B, In B earlier -> ~ mentions B (lower U m).
Proof.
  rewrite detect_topic_unfold. intros H Hgeneral.
  destruct (any_in (keywords_of "skills") (lower U m)) eqn:E1;
    [|destruct (any_in (keywords_of "projects") (lower U m)) eqn:E2;
      [|destruct (any_in (keywords_of "personality") (lower U m)) eqn:E3;
        [|destruct (any_in (keywords_of "goals") (lower U m)) eqn:E4;
          [|destruct (any_in (keywords_of "languages") (lower U m)) eqn:E5;
            [|congruence]]]]];
    subst A.
  - exists [], (tl priority). repeat split; [now apply mentions_any_in | intros B []].
  - exists ["skills"%string], (tl (tl priority)).
    repeat split; [now apply mentions_any_in|].
    intros B HB; simpl in HB;
      repeat (destruct HB as [<- | HB]; [now apply any_in_false_not_mentions|]);
      destruct HB.
  - exists ["skills"; "projects"]%string, (tl (tl (tl priority))).
    repeat split; [now apply mentions_any_in|].
    intros B HB; simpl in HB;
      repeat (destruct HB as [<- | HB]; [now apply any_in_false_not_mentions|]);
      destruct HB.
  - exists ["skills"; "projects"; "personality"]%string, ["languages"%string].
    repeat split; [now apply mentions_any_in|].
    intros B HB; simpl in HB;
      repeat (destruct HB as [<- | HB]; [now apply any_in_false_not_mentions|]);
      destruct HB.
  - exists ["skills"; "projects"; "personality"; "goals"]%string, [].
    repeat split; [now apply mentions_any_in|].
    intros B HB; simpl in HB;
      repeat (destruct HB as [<- | HB]; [now apply any_in_false_not_mentions|]);
      destruct HB.
Qed.

(** X1, at a question about goals. *)
Lemma detect_topic_sound_witness :
  exists earlier later,
    priority = earlier ++ "goals"%string :: later
    /\ mentions "goals" (lower plain_tables (lit "Any big DREAMS?"))
    /\ forall B, In B earlier -> ~ mentions B (lower plain_tables (lit "Any big DREAMS?")).
Proof.
  apply (detect_topic_sound plain_tables (lit "Any big DREAMS?") "goals"%string).
  - vm_compute. reflexivity.
  - discriminate.
Defined.

(** X2. The result is general exactly when no keyword of any of the five
    topics occurs in the lower-cased message. *)
Theorem detect_topic_general_iff (U : UnicodeData) (m : str) :
  detect_topic U m = "general"%string
  <-> forall A, In A priority -> ~ mentions A (lower U m).
Proof.
  rewrite detect_topic_unfold. split.
  - intros H A HA.
    destruct (any_in (keywords_of "skills") (lower U m)) eqn:E1; [discriminate|].
    destruct (any_in (keywords_of "projects") (lower U m)) eqn:E2; [discriminate|].
    destruct (any_in (keywords_of "personality") (lower U m)) eqn:E3; [discriminate|].
    destruct (any_in (keywords_of "goals") (lower U m)) eqn:E4; [discriminate|].
    destruct (any_in (keywords_of "languages") (lower U m)) eqn:E5; [discriminate|].
    simpl in HA.
    repeat (destruct HA as [<- | HA]; [now apply any_in_false_not_mentions|]).
    destruct HA.
  - intros Hnone.
    rewrite !not_mentions_any_in by (apply Hnone; simpl; tauto).
    reflexivity.
Qed.

(** X3. Two keywords of personality never decide: [soft skills] contains
    the skills keyword [skill] and [work style] the projects keyword
    [work], and both topics are tested first.  A message classified as
    personality contains one of the other four keywords. *)
Theorem personality_needs_own_keyword (U : UnicodeData) (m : str) :
  detect_topic U m = "personality"%string ->
  exists kw, In kw personality_own_keywords /\ occurs kw (lower U m).
Proof.
  rewrite detect_topic_unfold.
  destruct (any_in (keywords_of "skills") (lower U m)) eqn:E1; [discriminate|].
  destruct (any_in (keywords_of "projects") (lower U m)) eqn:E2; [discriminate|].
  destruct (any_in (keywords_of "personality") (lower U m)) eqn:E3;
    [intros _ | repeat match goal with
                       | |- context [if ?b then _ else _] => destruct b
                       end; discriminate].
  apply any_in_spec in E3. destruct E3 as [kw [Hin Hocc]].
  assert (Hskill : occurs (lit "skill") (lit "soft skills"))
    by (apply contains_occurs; reflexivity).
  assert (Hwork : occurs (lit "work") (lit "work style"))
    by (apply contains_occurs; reflexivity).
  simpl in Hin.
  destruct Hin as [<- | [<- | [<- | [<- | [<- | [<- | []]]]]]].
  - exists (lit "personality"). split; [simpl; tauto | assumption].
  - exfalso. rewrite (any_in_intro (keywords_of "skills") (lit "skill") (lower U m)) in E1;
      [discriminate | simpl; tauto | exact (occurs_trans _ _ _ Hskill Hocc)].
  - exists (lit "attitude"). split; [simpl; tauto | assumption].
  - exfalso. rewrite (any_in_intro (keywords_of "projects") (lit "work") (lower U m)) in E2;
      [discriminate | simpl; tauto | exact (occurs_trans _ _ _ Hwork Hocc)].
  - exists (lit "values"). split; [simpl; tauto | assumption].
  - exists (lit "philosophy"). split; [simpl; tauto | assumption].
Qed.

(** X3, at a question about values. *)
Lemma personality_needs_own_keyword_witness :
  exists kw, In kw personality_own_keywords
             /\ occurs kw (lower plain_tables (lit "Your core VALUES?")).
Proof.
  apply (personality_needs_own_keyword plain_tables (lit "Your core VALUES?")).
  vm_compute. reflexivity.
Defined.

(** ** The brevity heuristic *)

Lemma token_starts_positive (U : UnicodeData) (s : str) (c : char) :
  In c s -> isspace U c = false -> (1 <= token_starts U true s)%nat.
Proof.
  induction s as [|d s IH]; simpl; [tauto|].
  intros [-> | Hin] Hc.
  - rewrite Hc. simpl. lia.
  - destruct (isspace U d) eqn:E; simpl; [now apply IH | lia].
Qed.

(** X4. A simple question has between one and ten tokens: each keyword of
    the list starts with a letter, so a text in which one occurs is not
    blank. *)
Theorem simple_question_token_bounds (U : UnicodeData) (m : str) :
  is_simple_question U m = true ->
  (1 <= token_count U (lower U m) <= 10)%nat.
Proof.
  unfold is_simple_question. cbv zeta. rewrite split_length.
  rewrite andb_true_iff, Nat.leb_le, any_in_spec.
  intros [Hle [kw [Hin [before [after Hocc]]]]]. split; [|exact Hle].
  unfold token_count. rewrite Hocc. simpl in Hin.
  repeat (destruct Hin as [<- | Hin];
          [ match goal with
            | |- context [before ++ lit ?k ++ after] =>
                apply (token_starts_positive U _ (hd 0 (lit k)));
                [ apply in_or_app; right; simpl; tauto | reflexivity ]
            end | ]).
  destruct Hin.
Qed.

(** X4, at a greeting. *)
Lemma simple_question_token_bounds_witness :
  (1 <= token_count plain_tables (lower plain_tables (lit "Hello there")) <= 10)%nat.
Proof.
  apply (simple_question_token_bounds plain_tables (lit "Hello there")).
  vm_compute. reflexivity.
Defined.

(** ** Stripping *)

Section StripFacts.

Variable U : UnicodeData.

Lemma lstrip_fixed (c : char) (rest : str) :
  isspace U c = false -> lstrip U (c :: rest) = c :: rest.
Proof. intros H. simpl. now rewrite H. Qed.

Lemma lstrip_idem (s : str) : lstrip U (lstrip U s) = lstrip U s.
Proof.
  destruct (lstrip U s) as [|c rest] eqn:E; [reflexivity|].
  apply lstrip_fixed. exact (lstrip_head U s c rest E).
Qed.

Lemma rstrip_idem (s : str) : rstrip U (rstrip U s) = rstrip U s.
Proof. unfold rstrip. now rewrite rev_involutive, lstrip_idem. Qed.

Lemma rstrip_prefix (s : str) : exists after, s = rstrip U s ++ after.
Proof.
  unfold rstrip. destruct (lstrip_suffix U (rev s)) as [before H].
  exists (rev before). rewrite <- rev_app_distr, <- H. now rewrite rev_involutive.
Qed.

Lemma lstrip_rstrip_lstrip (s : str) :
  lstrip U (rstrip U (lstrip U s)) = rstrip U (lstrip U s).
Proof.
  destruct (rstrip_prefix (lstrip U s)) as [after H].
  destruct (rstrip U (lstrip U s)) as [|c rest] eqn:E; [reflexivity|].
  apply lstrip_fixed. simpl in H. exact (lstrip_head U s c _ H).
Qed.

(** Stripping leaves nothing to strip. *)
Lemma strip_idem (s : str) : strip U (strip U s) = strip U s.
Proof.
  unfold strip at 2. unfold strip at 1.
  now rewrite lstrip_rstrip_lstrip, rstrip_idem.
Qed.

End StripFacts.

(** ** The handler, case by case *)

(** X5. When the first choice of the provider's response has content, the
    answer is the object [{"response": ...}] holding that content stripped,
    so with no whitespace left at either end; one request was submitted and
    nothing was logged. *)
Theorem about_me_success (U : UnicodeData)
    (create : CompletionRequest -> ProviderOutcome) (w : World) (q : Question)
    (text : str) (others : list (option str)) :
  strip U (message q) <> [] ->
  create (chat_request (built_prompt U (message q))) = Returned (Some text :: others) ->
  exists answer,
    about_me U create w q
    = (inr [("response"%string, answer)],
       {| logged := logged w;
          submitted := submitted w ++ [chat_request (built_prompt U (message q))] |})
    /\ answer = strip U text
    /\ strip U answer = answer.
Proof.
  intros Hmsg Hcreate. exists (strip U text). unfold about_me.
  destruct (strip U (message q)); [congruence|].
  rewrite Hcreate. simpl. repeat split. apply strip_idem.
Qed.

(** X5, at a completion padded with a space and a newline. *)
Lemma about_me_success_witness :
  exists answer,
    about_me plain_tables (fun _ => Returned [Some (lit " I speak French.
")]) empty_world {| message := lit "Do you speak French?" |}
    = (inr [("response"%string, answer)],
       {| logged := logged empty_world;
          submitted := submitted empty_world
                       ++ [chat_request (built_prompt plain_tables
                                           (lit "Do you speak French?"))] |})
    /\ answer = strip plain_tables (lit " I speak French.
")
    /\ strip plain_tables answer = answer.
Proof.
  apply (about_me_success plain_tables (fun _ => Returned [Some (lit " I speak French.
")]) empty_world {| message := lit "Do you speak French?" |}
           (lit " I speak French.
") []).
  - vm_compute. discriminate.
  - reflexivity.
Defined.

(** X6. A response without a usable first choice, one with no choices or
    one whose first choice has no content, fails inside the [try] like a
    provider error: the answer is the fixed 500, and one line is logged. *)
Theorem about_me_unusable_response (U : UnicodeData)
    (create : CompletionRequest -> ProviderOutcome) (w : World) (q : Question) :
  strip U (message q) <> [] ->
  (create (chat_request (built_prompt U (message q))) = Returned []
   \/ exists others,
        create (chat_request (built_prompt U (message q))) = Returned (None :: others)) ->
  fst (about_me U create w q)
  = inl {| status_code := 500;
           detail := "Something went wrong while processing your request." |}
  /\ List.length (logged (snd (about_me U create w q))) = S (List.length (logged w)).
Proof.
  intros Hmsg Hcreate. unfold about_me.
  destruct (strip U (message q)); [congruence|].
  destruct Hcreate as [-> | [others ->]]; simpl;
    (split; [reflexivity | rewrite length_app; simpl; lia]).
Qed.

(** X6, at a response with an empty choice list. *)
Lemma about_me_unusable_response_witness :
  fst (about_me plain_tables (fun _ => Returned []) empty_world
         {| message := lit "hello" |})
  = inl {| status_code := 500;
           detail := "Something went wrong while processing your request." |}
  /\ List.length (logged (snd (about_me plain_tables (fun _ => Returned []) empty_world
                                 {| message := lit "hello" |})))
     = S (List.length (logged empty_world)).
Proof.
  apply (about_me_unusable_response plain_tables (fun _ => Returned []) empty_world
           {| message := lit "hello" |}).
  - vm_compute. discriminate.
  - left. reflexivity.
Defined.

(** The three ways [about_me] ends, with what each leaves behind. *)
Lemma about_me_cases (U : UnicodeData)
    (create : CompletionRequest -> ProviderOutcome) (w : World) (q : Question) :
  about_me U create w q = (inl bad_request, w)
  \/ (exists answer,
        about_me U create w q
        = (inr [("response"%string, answer)],
           {| logged := logged w;
              submitted := submitted w ++ [chat_request (built_prompt U (message q))] |}))
  \/ (exists e,
        about_me U create w q
        = (inl internal_error,
           {| logged := logged w ++ [lit "OpenAI API call failed: " ++ e];
              submitted := submitted w ++ [chat_request (built_prompt U (message q))] |})).
Proof.
  unfold about_me. destruct (strip U (message q)); [now left|].
  destruct (completion_text U _) as [e | answer]; simpl.
  - right; right. now exists e.
  - right; left. now exists answer.
Qed.

(** X7. The handler writes to the log exactly when it answers 500: then it
    adds one line, the fixed prefix followed by the error text; a 200 and a
    400 leave the log as it was. *)
Theorem about_me_logs_iff_500 (U : UnicodeData)
    (create : CompletionRequest -> ProviderOutcome) (w : World) (q : Question) :
  (status (respond (fst (about_me U create w q))) = 500%Z
   /\ exists e, logged (snd (about_me U create w q))
                = logged w ++ [lit "OpenAI API call failed: " ++ e])
  \/ (status (respond (fst (about_me U create w q))) <> 500%Z
      /\ logged (snd (about_me U create w q)) = logged w).
Proof.
  destruct (about_me_cases U create w q) as [-> | [[answer ->] | [e ->]]]; simpl.
  - right. split; [discriminate | reflexivity].
  - right. split; [discriminate | reflexivity].
  - left. split; [reflexivity | now exists e].
Qed.

(** X8. The handler calls the provider at most once and keeps what was
    submitted before: a 400 submits nothing, a 200 and a 500 submit exactly
    the one request built from the message; there is no second attempt
    after a failure. *)
Theorem about_me_one_call (U : UnicodeData)
    (create : CompletionRequest -> ProviderOutcome) (w : World) (q : Question) :
  (status (respond (fst (about_me U create w q))) = 400%Z
   /\ submitted (snd (about_me U create w q)) = submitted w)
  \/ ((status (respond (fst (about_me U create w q))) = 200%Z
       \/ status (respond (fst (about_me U create w q))) = 500%Z)
      /\ submitted (snd (about_me U create w q))
         = submitted w ++ [chat_request (built_prompt U (message q))]).
Proof.
  destruct (about_me_cases U create w q) as [-> | [[answer ->] | [e ->]]]; simpl.
  - left. now split.
  - right. split; [now left | reflexivity].
  - right. split; [now right | reflexivity].
Qed.

(** ** The application *)

Section ServeFacts.

Variable U : UnicodeData.
Variable Limiter : Type.
Variable limiter_hit : string -> str -> Limiter -> bool * Limiter.
Variable rate_limit_exceeded : JSON.

(** What one request does to the world, by its answer. *)
Lemma serve_effects (create : CompletionRequest -> ProviderOutcome)
    (app : App Limiter) (r : Request) :
  let result := serve U Limiter limiter_hit rate_limit_exceeded create app r in
  In (status (fst result)) [200; 400; 429; 500]%Z
  /\ (exists new,
        submitted (world Limiter (snd result)) = submitted (world Limiter app) ++ new
        /\ List.length new = if reached_provider r (fst result) then 1%nat else 0%nat)
  /\ (exists lines,
        logged (world Limiter (snd result)) = logged (world Limiter app) ++ lines
        /\ List.length lines = if failed (fst result) then 1%nat else 0%nat).
Proof.
  destruct r as [|remote_address q]; simpl.
  - split; [tauto|]. split; exists []; now rewrite app_nil_r.
  - destruct (limiter_hit _ _ _) as [[|] l]; simpl.
    + destruct (about_me_cases U create (world Limiter app) q)
        as [-> | [[answer ->] | [e ->]]]; simpl.
      * split; [tauto|]. split; exists []; now rewrite app_nil_r.
      * split; [tauto|]. split; [eexists; split; [reflexivity | reflexivity]|].
        exists []. now rewrite app_nil_r.
      * split; [tauto|]. split; eexists; split; reflexivity.
    + split; [tauto|]. split; exists []; now rewrite app_nil_r.
Qed.

End ServeFacts.

(** X9. A ping, and a question whose body is a well-formed [Question],
    is answered with one of the statuses 200, 400, 429 and 500, whatever
    the limiter decides and the provider does. *)
Theorem serve_status (U : UnicodeData) (Limiter : Type)
    (limiter_hit : string -> str -> Limiter -> bool * Limiter)
    (rate_limit_exceeded : JSON)
    (create : CompletionRequest -> ProviderOutcome) (app : App Limiter) (r : Request) :
  In (status (fst (serve U Limiter limiter_hit rate_limit_exceeded create app r)))
     [200; 400; 429; 500]%Z.
Proof. apply (serve_effects U Limiter limiter_hit rate_limit_exceeded create app r). Qed.

(** ** Requests in sequence *)

Section RunFacts.

Variable U : UnicodeData.
Variable Limiter : Type.
Variable limiter_hit : string -> str -> Limiter -> bool * Limiter.
Variable rate_limit_exceeded : JSON.

Let run' := run U Limiter limiter_hit rate_limit_exceeded.

Lemma run_cons (app : App Limiter) (create : CompletionRequest -> ProviderOutcome)
    (r : Request) (rest : list ((CompletionRequest -> ProviderOutcome) * Request)) :
  run' app ((create, r) :: rest)
  = (fst (serve U Limiter limiter_hit rate_limit_exceeded create app r)
       :: fst (run' (snd (serve U Limiter limiter_hit rate_limit_exceeded create app r)) rest),
     snd (run' (snd (serve U Limiter limiter_hit rate_limit_exceeded create app r)) rest)).
Proof.
  unfold run'. simpl.
  destruct (serve U Limiter limiter_hit rate_limit_exceeded create app r) as [response app1].
  simpl. now destruct (run U Limiter limiter_hit rate_limit_exceeded app1 rest).
Qed.

Lemma run_effects (requests : list ((CompletionRequest -> ProviderOutcome) * Request))
    (app : App Limiter) :
  (exists new,
      submitted (world Limiter (snd (run' app requests)))
      = submitted (world Limiter app) ++ new
      /\ List.length new
         = List.length (filter (fun p => reached_provider (fst p) (snd p))
                          (combine (map snd requests) (fst (run' app requests)))))
  /\ (exists lines,
        logged (world Limiter (snd (run' app requests)))
        = logged (world Limiter app) ++ lines
        /\ List.length lines = List.length (filter failed (fst (run' app requests)))).
Proof.
  revert app; induction requests as [|[create r] rest IH]; intros app.
  - simpl. split; exists []; now rewrite app_nil_r.
  - rewrite run_cons. cbn [fst snd map combine filter].
    pose proof (serve_effects U Limiter limiter_hit rate_limit_exceeded create app r) as H.
    cbv zeta in H.
    set (step := serve U Limiter limiter_hit rate_limit_exceeded create app r) in *.
    destruct H as [_ [[new1 [Hs1 Hn1]] [lines1 [Hl1 Hm1]]]].
    destruct (IH (snd step)) as [[new2 [Hs2 Hn2]] [lines2 [Hl2 Hm2]]].
    split.
    + exists (new1 ++ new2). rewrite Hs2, Hs1, <- app_assoc. split; [reflexivity|].
      rewrite length_app, Hn1, Hn2.
      now destruct (reached_provider r (fst step)).
    + exists (lines1 ++ lines2). rewrite Hl2, Hl1, <- app_assoc. split; [reflexivity|].
      rewrite length_app, Hm1, Hm2.
      now destruct (failed (fst step)).
Qed.

Lemma run_responses_length (requests : list ((CompletionRequest -> ProviderOutcome) * Request))
    (app : App Limiter) :
  List.length (fst (run' app requests)) = List.length requests.
Proof.
  revert app; induction requests as [|[create r] rest IH]; intros app;
    [reflexivity|].
  rewrite run_cons. simpl. now rewrite IH.
Qed.

End RunFacts.

(** X11. Over any sequence of requests the provider is called once for
    every question answered with 200 or 500 and not otherwise: a ping, a
    400 and a 429 cost no call. *)
Theorem run_provider_calls (U : UnicodeData) (Limiter : Type)
    (limiter_hit : string -> str -> Limiter -> bool * Limiter)
    (rate_limit_exceeded : JSON)
    (requests : list ((CompletionRequest -> ProviderOutcome) * Request))
    (app : App Limiter) :
  List.length
    (submitted (world Limiter (snd (run U Limiter limiter_hit rate_limit_exceeded app requests))))
  = (List.length (submitted (world Limiter app))
     + List.length
         (filter (fun p => reached_provider (fst p) (snd p))
            (combine (map snd requests)
               (fst (run U Limiter limiter_hit rate_limit_exceeded app requests)))))%nat.
Proof.
  destruct (run_effects U Limiter limiter_hit rate_limit_exceeded requests app)
    as [[new [Hs Hn]] _].
  now rewrite Hs, length_app, Hn.
Qed.

(** X12. Over any sequence of requests the log grows by one line for every
    answer with status 500 and by nothing else. *)
Theorem run_log_lines (U : UnicodeData) (Limiter : Type)
    (limiter_hit : string -> str -> Limiter -> bool * Limiter)
    (rate_limit_exceeded : JSON)
    (requests : list ((CompletionRequest -> ProviderOutcome) * Request))
    (app : App Limiter) :
  List.length
    (logged (world Limiter (snd (run U Limiter limiter_hit rate_limit_exceeded app requests))))
  = (List.length (logged (world Limiter app))
     + List.length
         (filter failed (fst (run U Limiter limiter_hit rate_limit_exceeded app requests))))%nat.
Proof.
  destruct (run_effects U Limiter limiter_hit rate_limit_exceeded requests app)
    as [_ [lines [Hl Hm]]].
  now rewrite Hl, length_app, Hm.
Qed.

(** ** Start-up *)

Lemma set_add_In (x y : string) (s : list string) :
  In y (set_add x s) <-> y = x \/ In y s.
Proof.
  unfold set_add. destruct (existsb (String.eqb x) s) eqn:E.
  - split; [tauto|]. intros [-> | H]; [|exact H].
    apply existsb_exists in E. destruct E as [z [Hz Heq]].
    apply String.eqb_eq in Heq. now subst.
  - rewrite in_app_iff. simpl. intuition.
Qed.

Lemma set_add_NoDup (x : string) (s : list string) : NoDup s -> NoDup (set_add x s).
Proof.
  intros H. unfold set_add. destruct (existsb (String.eqb x) s) eqn:E; [exact H|].
  apply NoDup_app; [exact H | repeat constructor; simpl; tauto |].
  intros y Hy [<- | []].
  assert (existsb (String.eqb x) s = true); [|congruence].
  apply existsb_exists. exists x. split; [exact Hy | apply String.eqb_refl].
Qed.

Lemma set_add_present (x : string) (s : list string) :
  In x s -> set_add x s = s.
Proof.
  intros H. unfold set_add.
  replace (existsb (String.eqb x) s) with true; [reflexivity|].
  symmetry. apply existsb_exists. exists x. split; [exact H | apply String.eqb_refl].
Qed.

(** X13. After start-up the routes are the same in number, order and path;
    every [APIRoute] answers OPTIONS besides exactly the methods it
    answered before, its method set still without repeats; a route of
    another class is untouched. *)
Theorem ensure_options_allowed_spec (routes : list Route) :
  Forall2
    (fun before after =>
       route_path after = route_path before
       /\ match before with
          | APIRoute _ methods =>
              (exists path methods', after = APIRoute path methods')
              /\ (forall m, In m (route_methods after)
                            <-> m = "OPTIONS"%string \/ In m methods)
              /\ (NoDup methods -> NoDup (route_methods after))
          | OtherRoute _ _ => after = before
          end)
    routes (ensure_options_allowed routes).
Proof.
  induction routes as [|[path methods | path methods] routes IH]; simpl;
    constructor; try exact IH; simpl.
  - split; [reflexivity|]. split; [now eexists _, _|].
    split; [intros m; apply set_add_In | apply set_add_NoDup].
  - now split.
Qed.

(** X14. Running the start-up hook again changes nothing. *)
Theorem ensure_options_allowed_idempotent (routes : list Route) :
  ensure_options_allowed (ensure_options_allowed routes) = ensure_options_allowed routes.
Proof.
  unfold ensure_options_allowed. rewrite map_map. apply map_ext.
  intros [path methods | path methods]; [|reflexivity].
  f_equal. simpl. apply set_add_present. apply set_add_In. now left.
Qed.

(** ** The prompt *)

Lemma occurs_instruction_prompt_for (topic : string) (length_instruction message : str) :
  occurs length_instruction (prompt_for topic length_instruction message).
Proof.
  unfold prompt_for.
  repeat match goal with
         | |- context [if ?b then _ else _] => destruct b
         end;
    repeat first [ exact (occurs_middle [] length_instruction _) | apply occurs_app_r ].
Qed.

(** X15. The prompt submitted for an accepted message contains the length
    instruction chosen by the brevity heuristic, whatever the topic. *)
Theorem prompt_contains_instruction (U : UnicodeData)
    (create : CompletionRequest -> ProviderOutcome) (w : World) (q : Question) :
  strip U (message q) <> [] ->
  exists prompt,
    last_prompt (snd (about_me U create w q)) = Some prompt
    /\ occurs (if is_simple_question U (message q)
               then lit "Keep it short and direct (1-2 sentences)."
               else lit "Provide a professional and concise answer.") prompt.
Proof.
  intros H. exists (built_prompt U (message q)). split.
  - now apply about_me_last_prompt.
  - apply (occurs_instruction_prompt_for _ (length_instruction_for _)).
Qed.

(** X15, at a short question. *)
Lemma prompt_contains_instruction_witness :
  exists prompt,
    last_prompt (snd (about_me plain_tables (fun _ => Raised (lit "timeout"))
                        empty_world {| message := lit "Who are you?" |}))
    = Some prompt
    /\ occurs (if is_simple_question plain_tables (lit "Who are you?")
               then lit "Keep it short and direct (1-2 sentences)."
               else lit "Provide a professional and concise answer.") prompt.
Proof.
  apply (prompt_contains_instruction plain_tables (fun _ => Raised (lit "timeout"))
           empty_world {| message := lit "Who are you?" |}).
  vm_compute. discriminate.
Defined.

(** The templates tell the topic and the brevity flag apart, and each
    holds the message between fixed texts, so a prompt is built from one
    topic, one flag and one message only. *)
Lemma prompt_for_injective (t1 t2 : string) (s1 s2 : bool) (m1 m2 : str) :
  In t1 topics -> In t2 topics ->
  prompt_for t1 (length_instruction_for s1) m1
  = prompt_for t2 (length_instruction_for s2) m2 ->
  t1 = t2 /\ s1 = s2 /\ m1 = m2.
Proof.
  unfold topics, priority. simpl. intros H1 H2.
  repeat (destruct H1 as [<- | H1]); try destruct H1;
    repeat (destruct H2 as [<- | H2]); try destruct H2;
    destruct s1, s2; intros H; vm_compute in H;
    try discriminate H;
    repeat injection H as H;
    try (apply app_inv_tail in H; now subst);
    exfalso; apply (f_equal (@rev char)) in H; rewrite !rev_app_distr in H;
    simpl in H; discriminate H.
Qed.

(** X16. Different messages never get the same prompt: the message can be
    read back from the prompt [about_me] builds. *)
Theorem built_prompt_injective (U : UnicodeData) (m1 m2 : str) :
  built_prompt U m1 = built_prompt U m2 -> m1 = m2.
Proof.
  unfold built_prompt. cbv zeta. intros H.
  apply prompt_for_injective in H; [tauto | apply detect_topic_range ..].
Qed.

(** X16, at a message. *)
Lemma built_prompt_injective_witness : lit "Which stack?" = lit "Which " ++ lit "stack?".
Proof.
  apply (built_prompt_injective plain_tables (lit "Which stack?")
           (lit "Which " ++ lit "stack?")).
  reflexivity.
Defined.

(** ** Blank messages at the endpoint *)

(** X17. Through the endpoint a blank message never reaches the provider
    or the log, whether the limiter admits the hit or refuses it; when it
    is admitted, the answer is the 400. *)
Theorem endpoint_blank_message (U : UnicodeData) (Limiter : Type)
    (limiter_hit : string -> str -> Limiter -> bool * Limiter)
    (rate_limit_exceeded : JSON)
    (create : CompletionRequest -> ProviderOutcome) (app : App Limiter)
    (remote_address : str) (q : Question) :
  Forall (fun c => isspace U c = true) (message q) ->
  world Limiter (snd (serve U Limiter limiter_hit rate_limit_exceeded create app
                        (POST_about_louai remote_address q)))
  = world Limiter app
  /\ In (status (fst (serve U Limiter limiter_hit rate_limit_exceeded create app
                        (POST_about_louai remote_address q))))
        [400; 429]%Z.
Proof.
  intros H. apply strip_nil in H. unfold serve.
  destruct (limiter_hit _ _ _) as [[|] l]; simpl.
  - rewrite (about_me_blank U create _ q H). simpl. tauto.
  - tauto.
Qed.

(** X17, at a limiter that counts hits and admits the first five. *)
Lemma endpoint_blank_message_witness :
  world nat
    (snd (serve plain_tables nat (fun _ _ n => (Nat.ltb n 5, S n)) []
            (fun _ => Returned [Some (lit "hi")])
            {| limiter := 0%nat; world := empty_world |}
            (POST_about_louai (lit "127.0.0.1") {| message := lit "   " |})))
  = empty_world
  /\ In (status
           (fst (serve plain_tables nat (fun _ _ n => (Nat.ltb n 5, S n)) []
                   (fun _ => Returned [Some (lit "hi")])
                   {| limiter := 0%nat; world := empty_world |}
                   (POST_about_louai (lit "127.0.0.1") {| message := lit "   " |}))))
        [400; 429]%Z.
Proof.
  apply (endpoint_blank_message plain_tables nat (fun _ _ n => (Nat.ltb n 5, S n)) []
           (fun _ => Returned [Some (lit "hi")])
           {| limiter := 0%nat; world := empty_world |}
           (lit "127.0.0.1") {| message := lit "   " |}).
  repeat constructor.
Defined.
